(** * calipr: polyline / arc point model and geometry kernel

    A shallow embedding of the measurement data model ([types.ts]), the
    point model of [tool-manager.ts], the geometry kernel of [utils.ts]
    and the arc gesture helpers of [polyline-arc.ts] and
    [tools/line-tool.ts].

    Numbers.  In the data model, the point model and the handlers a
    JavaScript number is read as a real number; the statements over this
    reading use numbers only through the tests the code makes on them
    (a distance against a radius, a squared length against a bound) and
    through the expressions it stores.  What the kernel computes with
    them is the subject of [Binary64], the same functions over IEEE 754
    binary64 values.

    Indices that come from outside (a flattened control-point index) are
    integers of [Z]; loop counters over the segment array are naturals.
    Objects are mutated in place in the source; here every function
    returns the object it has updated, and where callbacks keep a
    reference to a polyline the objects are named ([Session]). *)

From Stdlib Require Import Floats.
From Stdlib Require Import String Reals Lra Lia ZArith List Bool Psatz.
Import ListNotations.

Open Scope R_scope.

(** ** Data model ([types.ts]) *)

Record Point : Type := mkPoint { x : R; y : R }.

(** [end] is a reserved word, so the field is [seg_end]; an absent
    [bulge] property is [None]. *)
Record PolylineSegment : Type := mkSegment {
  seg_end : Point;
  bulge : option Point
}.

(** [closed?: boolean]: [None] is the absent property. *)
Record PolylineMeasurement : Type := mkPolyline {
  poly_id : string;
  start : Point;
  segments : list PolylineSegment;
  closed : option bool
}.

Record RectangleMeasurement : Type := mkRectangle {
  rect_id : string;
  points : Point * Point
}.

Record CircleMeasurement : Type := mkCircle {
  circ_id : string;
  center : Point;
  radiusPx : R
}.

Inductive Measurement : Type :=
| Polyline (m : PolylineMeasurement)
| Rectangle (m : RectangleMeasurement)
| Circle (m : CircleMeasurement).

(** Field updates of a mutable polyline object. *)
Definition set_start (m : PolylineMeasurement) (p : Point) : PolylineMeasurement :=
  mkPolyline (poly_id m) p (segments m) (closed m).

Definition set_segments (m : PolylineMeasurement) (segs : list PolylineSegment)
  : PolylineMeasurement :=
  mkPolyline (poly_id m) (start m) segs (closed m).

Definition set_closed (m : PolylineMeasurement) (c : bool) : PolylineMeasurement :=
  mkPolyline (poly_id m) (start m) (segments m) (Some c).

Definition set_end (seg : PolylineSegment) (p : Point) : PolylineSegment :=
  mkSegment p (bulge seg).

Definition set_bulge (seg : PolylineSegment) (p : Point) : PolylineSegment :=
  mkSegment (seg_end seg) (Some p).

(** [delete seg.bulge] *)
Definition delete_bulge (seg : PolylineSegment) : PolylineSegment :=
  mkSegment (seg_end seg) None.

(** ** Array helpers *)

(** [arr[i] = v] for an index inside the array. *)
Fixpoint list_set {A : Type} (l : list A) (i : nat) (v : A) : list A :=
  match l, i with
  | [], _ => []
  | _ :: t, O => v :: t
  | h :: t, S i' => h :: list_set t i' v
  end.

(** [arr.splice(i, 1)] *)
Definition splice1 {A : Type} (l : list A) (i : nat) : list A :=
  firstn i l ++ skipn (S i) l.

(** [arr.pop()], as a statement: the array without its last element. *)
Definition pop {A : Type} (l : list A) : list A := removelast l.

(** ** Numbers *)

(** Comparisons of numbers, as booleans. *)
Definition Rltb (a b : R) : bool := if Rlt_dec a b then true else false.
Definition Rleb (a b : R) : bool := if Rle_dec a b then true else false.
Definition Reqb (a b : R) : bool := if Req_dec_T a b then true else false.

(** [dist] of [utils.ts]; [** 2] is squaring. *)
Definition dist (a b : Point) : R :=
  sqrt ((x b - x a) ^ 2 + (y b - y a) ^ 2).

(** ** Point model ([tool-manager.ts]) *)

(** One iteration of the [for (const seg of m.segments)] loop of
    [getMeasurementPoints]: push the bulge if there is one, then the end. *)
Definition pushSegmentPoints (pts : list Point) (seg : PolylineSegment) : list Point :=
  let pts := match bulge seg with
             | Some b => pts ++ [b]
             | None => pts
             end in
  pts ++ [seg_end seg].

Definition getMeasurementPoints (m : Measurement) : list Point :=
  match m with
  | Polyline m => fold_left pushSegmentPoints (segments m) [start m]
  | Rectangle m => [fst (points m); snd (points m)]
  | Circle m => [center m; mkPoint (x (center m) + radiusPx m) (y (center m))]
  end.

(** The loop of [setMeasurementPoint] over the segments, [ci] being the
    running flattened index.  The loop returns as soon as a slot matches;
    when none does the array is rebuilt unchanged. *)
Fixpoint setSegmentsPoint (segs : list PolylineSegment) (ci idx : Z) (p : Point)
  : list PolylineSegment :=
  match segs with
  | [] => []
  | seg :: rest =>
      match bulge seg with
      | Some _ =>
          if (ci =? idx)%Z then set_bulge seg p :: rest
          else if (ci + 1 =? idx)%Z then set_end seg p :: rest
          else seg :: setSegmentsPoint rest (ci + 1 + 1) idx p
      | None =>
          if (ci =? idx)%Z then set_end seg p :: rest
          else seg :: setSegmentsPoint rest (ci + 1) idx p
      end
  end.

(** The rectangle stores a two-element tuple; a write at an index other
    than 0 or 1 lands outside the two slots that [getMeasurementPoints]
    reads and leaves them as they are.  The circle case runs its two
    [if]s in sequence, the second one reading the center just written. *)
Definition setMeasurementPoint (m : Measurement) (idx : Z) (p : Point) : Measurement :=
  match m with
  | Polyline m =>
      if (idx =? 0)%Z then Polyline (set_start m p)
      else Polyline (set_segments m (setSegmentsPoint (segments m) 1 idx p))
  | Rectangle m =>
      if (idx =? 0)%Z then Rectangle (mkRectangle (rect_id m) (p, snd (points m)))
      else if (idx =? 1)%Z then Rectangle (mkRectangle (rect_id m) (fst (points m), p))
      else Rectangle m
  | Circle m =>
      let m1 := if (idx =? 0)%Z then mkCircle (circ_id m) p (radiusPx m) else m in
      let m2 := if (idx =? 1)%Z
                then mkCircle (circ_id m1) (center m1)
                       (sqrt ((x p - x (center m1)) ^ 2 + (y p - y (center m1)) ^ 2))
                else m1 in
      Circle m2
  end.

Inductive PointInfo : Type :=
| InfoStart
| InfoBulge (segIndex : nat)
| InfoEnd (segIndex : nat).

(** The loop of [identifyPolylinePoint]: [si] is the index of the head of
    [segs] in the whole array, [ci] the running flattened index. *)
Fixpoint identifySegments (segs : list PolylineSegment) (si : nat) (ci idx : Z)
  : option PointInfo :=
  match segs with
  | [] => None
  | seg :: rest =>
      match bulge seg with
      | Some _ =>
          if (ci =? idx)%Z then Some (InfoBulge si)
          else if (ci + 1 =? idx)%Z then Some (InfoEnd si)
          else identifySegments rest (S si) (ci + 1 + 1) idx
      | None =>
          if (ci =? idx)%Z then Some (InfoEnd si)
          else identifySegments rest (S si) (ci + 1) idx
      end
  end.

Definition identifyPolylinePoint (m : PolylineMeasurement) (idx : Z) : option PointInfo :=
  if (idx =? 0)%Z then Some InfoStart
  else identifySegments (segments m) 0 1 idx.

(** [identifyPolylinePoint] only returns segment indices it has just
    read, so the [None] branch of the bulge case below (no such segment)
    is never taken.  The two branches of the end case are the same in the
    source. *)
Definition removePolylinePoint (m : PolylineMeasurement) (idx : Z) : PolylineMeasurement :=
  match identifyPolylinePoint m idx with
  | None => m
  | Some (InfoBulge si) =>
      match nth_error (segments m) si with
      | Some seg => set_segments m (list_set (segments m) si (delete_bulge seg))
      | None => m
      end
  | Some InfoStart =>
      match segments m with
      | [] => m
      | seg0 :: _ => set_segments (set_start m (seg_end seg0)) (splice1 (segments m) 0)
      end
  | Some (InfoEnd si) =>
      if Nat.eqb si (length (segments m) - 1)
      then set_segments m (splice1 (segments m) si)
      else set_segments m (splice1 (segments m) si)
  end.

(** ** Geometry kernel ([utils.ts]) *)

Definition pointNear (p target : Point) (threshold : R) : bool :=
  Rleb (dist p target) threshold.

Record CircleResult : Type := mkCircleResult { cx : R; cy : R; r : R }.

Definition circumscribedCircle (p1 p2 p3 : Point) : option CircleResult :=
  let ax := x p1 in let ay := y p1 in
  let bx := x p2 in let by_ := y p2 in
  let cx := x p3 in let cy := y p3 in
  let D := 2 * (ax * (by_ - cy) + bx * (cy - ay) + cx * (ay - by_)) in
  if Rltb (Rabs D) 1e-10 then None
  else
    let ux := ((ax * ax + ay * ay) * (by_ - cy) + (bx * bx + by_ * by_) * (cy - ay)
               + (cx * cx + cy * cy) * (ay - by_)) / D in
    let uy := ((ax * ax + ay * ay) * (cx - bx) + (bx * bx + by_ * by_) * (ax - cx)
               + (cx * cx + cy * cy) * (bx - ax)) / D in
    let r := sqrt ((ax - ux) ^ 2 + (ay - uy) ^ 2) in
    Some (mkCircleResult ux uy r).

(** The [%] operator on numbers: the remainder has the sign of the
    dividend, the quotient being truncated towards zero. *)
Definition Rtrunc (q : R) : Z :=
  if Rleb 0 q then Int_part q else (- Int_part (- q))%Z.

Definition Rrem (a b : R) : R := a - b * IZR (Rtrunc (a / b)).

(** Normalize angle to [0, 2π) *)
Definition normalizeAngle (a : R) : R :=
  let a := Rrem a (2 * PI) in
  if Rltb a 0 then a + 2 * PI else a.

Definition angleSweepThrough (a1 a2 a3 : R) : R :=
  let d2 := normalizeAngle (a2 - a1) in
  let d3 := normalizeAngle (a3 - a1) in
  if Rltb d2 d3 then d3 else d3 - 2 * PI.

(** [Math.atan2(b, a)]: the angle of the vector [(a, b)], in (-π, π]. *)
Definition atan2 (b a : R) : R :=
  if Rltb 0 a then atan (b / a)
  else if Rltb a 0 then (if Rleb 0 b then atan (b / a) + PI else atan (b / a) - PI)
  else if Rltb 0 b then PI / 2
  else if Rltb b 0 then - (PI / 2)
  else 0.

Definition computeTangentArcBulge (segStart segEnd tangentDir : Point) : option Point :=
  let nx := - y tangentDir in
  let ny := x tangentDir in
  let dx := x segStart - x segEnd in
  let dy := y segStart - y segEnd in
  if Rltb (dx * dx + dy * dy) 1e-6 then None
  else
    let denom := 2 * (nx * dx + ny * dy) in
    if Rltb (Rabs denom) 1e-6 then None
    else
      let t := - (dx * dx + dy * dy) / denom in
      let cx := x segStart + t * nx in
      let cy := y segStart + t * ny in
      let r := Rabs t in
      let a1 := atan2 (y segStart - cy) (x segStart - cx) in
      let a3 := atan2 (y segEnd - cy) (x segEnd - cx) in
      let aMid :=
        if Rltb 0 t then
          let sweep := normalizeAngle (a3 - a1) in
          let sweep := if Reqb sweep 0 then 2 * PI else sweep in
          a1 + sweep / 2
        else
          let sweep := normalizeAngle (a1 - a3) in
          let sweep := if Reqb sweep 0 then 2 * PI else sweep in
          a1 - sweep / 2 in
      Some (mkPoint (cx + r * cos aMid) (cy + r * sin aMid)).

(** ** Arc gesture helpers ([polyline-arc.ts]) *)

Definition POINT_HIT_RADIUS : R := 10.
Definition CLOSE_SNAP_RADIUS : R := 24.

(** The block of [getPrevTangent] that assigns [dx] and [dy]: the
    direction in which the previous segment, from [prevStart] to its end,
    arrives at its end. *)
Definition prevDirection (prevStart : Point) (prevSeg : PolylineSegment) : R * R :=
  match bulge prevSeg with
  | Some b =>
      match circumscribedCircle prevStart b (seg_end prevSeg) with
      | Some circle =>
          let rx := x (seg_end prevSeg) - cx circle in
          let ry := y (seg_end prevSeg) - cy circle in
          let a1 := atan2 (y prevStart - cy circle) (x prevStart - cx circle) in
          let a2 := atan2 (y b - cy circle) (x b - cx circle) in
          let a3 := atan2 (y (seg_end prevSeg) - cy circle)
                          (x (seg_end prevSeg) - cx circle) in
          let sweep := angleSweepThrough a1 a2 a3 in
          if Rleb 0 sweep then (- ry, rx) else (ry, - rx)
      | None =>
          (x (seg_end prevSeg) - x prevStart, y (seg_end prevSeg) - y prevStart)
      end
  | None =>
      (x (seg_end prevSeg) - x prevStart, y (seg_end prevSeg) - y prevStart)
  end.

(** Reading a property of [undefined] throws: [None] is that exception.
    It happens exactly when [segIdx] is past the end of the array plus
    one. *)
Definition getPrevTangent (m : PolylineMeasurement) (segIdx : nat) : option Point :=
  if Nat.eqb segIdx 0 then Some (mkPoint 1 0)
  else
    match nth_error (segments m) (segIdx - 1) with
    | None => None
    | Some prevSeg =>
        let prevStart :=
          if Nat.leb 2 segIdx
          then option_map seg_end (nth_error (segments m) (segIdx - 2))
          else Some (start m) in
        match prevStart with
        | None => None
        | Some prevStart =>
            let '(dx, dy) := prevDirection prevStart prevSeg in
            let len := sqrt (dx * dx + dy * dy) in
            if Rltb len 0.001 then Some (mkPoint 1 0)
            else Some (mkPoint (dx / len) (dy / len))
        end
    end.






Record ArcReleaseResult : Type := mkArcReleaseResult {
  arc_closed : bool;
  removedDegenerate : bool
}.

(** Second half of [finalizeArc]: the degenerate-arc removal, which only
    applies in new-segment mode. *)
Definition removeDegenerateArc (m : PolylineMeasurement) (wasNewSegment : bool)
  : PolylineMeasurement * ArcReleaseResult :=
  let n := length (segments m) in
  if wasNewSegment && Nat.leb 2 n then
    match nth_error (segments m) (n - 1), nth_error (segments m) (n - 2) with
    | Some lastSeg, Some prevSeg =>
        let prevEnd := seg_end prevSeg in
        if Rltb (dist prevEnd (seg_end lastSeg)) 2
        then (set_segments m (pop (segments m)), mkArcReleaseResult false true)
        else (m, mkArcReleaseResult false false)
    | _, _ => (m, mkArcReleaseResult false false)
    end
  else (m, mkArcReleaseResult false false).

(** [finalizeArc] returns its result record; the polyline it mutated is
    returned next to it. *)
Definition finalizeArc (m : PolylineMeasurement) (shiftHeld wasNewSegment : bool)
  : PolylineMeasurement * ArcReleaseResult :=
  let n := length (segments m) in
  match (if Nat.leb 2 n then nth_error (segments m) (n - 1) else None) with
  | Some lastSeg =>
      if negb shiftHeld && pointNear (seg_end lastSeg) (start m) CLOSE_SNAP_RADIUS
      then
        let lastSeg := set_end lastSeg (start m) in
        (set_closed (set_segments m (list_set (segments m) (n - 1) lastSeg)) true,
         mkArcReleaseResult true false)
      else removeDegenerateArc m wasNewSegment
  | None => removeDegenerateArc m wasNewSegment
  end.

(** ** The line tool ([tools/line-tool.ts])

    Only the fields of the tool context that the line tool reads are
    kept.  A pending [setTimeout] is the callback it will run: the one
    installed by a closing click, or the one installed by a normal click,
    which closes over the click's context. *)

Record ToolContext : Type := mkToolContext {
  mousePos : Point;
  shiftHeld : bool
}.

Inductive SnapType : Type := tangent | perpendicular.

Record Snap : Type := mkSnap {
  snapped : Point;
  snapType : option SnapType;
  from : Point;
  direction : Point
}.

Inductive ArcTimer : Type :=
| ClosingTimer
| SegmentTimer (ctx : ToolContext).

Record LineTool : Type := mkLineTool {
  activeMeasurement : option PolylineMeasurement;
  isHoldingForArc : bool;
  arcDragTimeout : option ArcTimer;
  isClosingSegment : bool;
  arcIsNewSegment : bool;
  currentSnap : option Snap;
  closeSnapActive : bool
}.

(** [onClick]; [newId] is the value [generateId()] draws.  The returned
    actions are always empty and are left out. *)
Definition onClick (t : LineTool) (newId : string) (pos : Point)
  (ctx : ToolContext) : LineTool :=
  match activeMeasurement t with
  | None =>
      mkLineTool (Some (mkPolyline newId pos [] None))
        (isHoldingForArc t) (arcDragTimeout t) (isClosingSegment t)
        (arcIsNewSegment t) (currentSnap t) (closeSnapActive t)
  | Some m =>
      let snapPos :=
        match currentSnap t with
        | Some s => match snapType s with Some _ => snapped s | None => pos end
        | None => pos
        end in
      if negb (shiftHeld ctx) && Nat.leb 2 (length (segments m))
         && pointNear pos (start m) CLOSE_SNAP_RADIUS
      then
        mkLineTool (Some (set_segments m (segments m ++ [mkSegment (start m) None])))
          (isHoldingForArc t) (Some ClosingTimer) true
          (arcIsNewSegment t) (currentSnap t) (closeSnapActive t)
      else
        mkLineTool (Some (set_segments m (segments m ++ [mkSegment snapPos None])))
          (isHoldingForArc t) (Some (SegmentTimer ctx)) (isClosingSegment t)
          (arcIsNewSegment t) (currentSnap t) (closeSnapActive t)
  end.

(** ** Derived notions used by the statements *)

(** The control points one segment contributes to the flattened list. *)
Definition segmentPoints (seg : PolylineSegment) : list Point :=
  match bulge seg with
  | Some b => [b; seg_end seg]
  | None => [seg_end seg]
  end.

(** A flattened index names a control point of the measurement. *)
Definition validIndex (m : Measurement) (idx : Z) : Prop :=
  (0 <= idx < Z.of_nat (length (getMeasurementPoints m)))%Z.

(** The point [getMeasurementPoints(m)[idx]], [None] for [undefined]. *)
Definition pointAt (m : Measurement) (idx : Z) : option Point :=
  if (idx <? 0)%Z then None
  else nth_error (getMeasurementPoints m) (Z.to_nat idx).

(** ** Concrete polylines of the test-suite *)

(** A triangle closed by an arc: the last segment ends on [start]. *)
Definition closedArcTriangle : PolylineMeasurement :=
  mkPolyline "p-closed-arc"%string (mkPoint 0 0)
    [ mkSegment (mkPoint 100 0) None;
      mkSegment (mkPoint 50 80) None;
      mkSegment (mkPoint 0 0) (Some (mkPoint 10 40)) ]
    (Some true).

(** The same triangle with its straight closing segment popped. *)
Definition closedStraightTriangle : PolylineMeasurement :=
  mkPolyline "p-closed-straight"%string (mkPoint 0 0)
    [ mkSegment (mkPoint 100 0) None;
      mkSegment (mkPoint 50 80) None ]
    (Some true).

(** A polyline with a single short segment, as left by one click close
    to the first point. *)
Definition shortStroke : PolylineMeasurement :=
  mkPolyline "p1"%string (mkPoint 0 0) [ mkSegment (mkPoint 5 0) None ] None.

(** An open path whose last point came back next to its start. *)
Definition openLoop : PolylineMeasurement :=
  mkPolyline "p2"%string (mkPoint 0 0)
    [ mkSegment (mkPoint 100 0) None;
      mkSegment (mkPoint 100 100) None;
      mkSegment (mkPoint 5 5) (Some (mkPoint 60 60)) ]
    None.

(** A line tool that has placed its first point and waits for the next
    click, and the context of a click at (50,0). *)
Definition startedPolyline : PolylineMeasurement :=
  mkPolyline "p3"%string (mkPoint 0 0) [] None.

Definition drawingTool : LineTool :=
  mkLineTool (Some startedPolyline) false None false false None false.

Definition clickContext : ToolContext := mkToolContext (mkPoint 50 0) false.

(** ** Further geometry helpers ([utils.ts]) *)

(** [Math.max(-1, Math.min(1, ...))] and [Math.acos] are [Rmax], [Rmin]
    and [acos]. *)
Definition vertexAngleDeg (a vertex b : Point) : R :=
  let vax := x a - x vertex in
  let vay := y a - y vertex in
  let vbx := x b - x vertex in
  let vby := y b - y vertex in
  let magA := sqrt (vax * vax + vay * vay) in
  let magB := sqrt (vbx * vbx + vby * vby) in
  if Rltb magA 1e-10 || Rltb magB 1e-10 then 0
  else
    let cosAngle := Rmax (-1) (Rmin 1 ((vax * vbx + vay * vby) / (magA * magB))) in
    acos cosAngle * (180 / PI).

Record VertexAngle : Type := mkVertexAngle {
  vertex : Point;
  prev : Point;
  next : Point;
  degrees : R
}.

(** The first loop of [polylineVertexAngles]: one angle where segment
    [i] meets segment [i+1]; the value of [prev] after the loop is
    returned with the angles. *)
Fixpoint interiorVertexAngles (prev : Point) (segs : list PolylineSegment)
  : list VertexAngle * Point :=
  match segs with
  | s :: ((s' :: _) as rest) =>
      let vertex := seg_end s in
      let next := seg_end s' in
      let '(angles, prev') := interiorVertexAngles vertex rest in
      (mkVertexAngle vertex prev next (vertexAngleDeg prev vertex next) :: angles, prev')
  | _ => ([], prev)
  end.

(** A [closed] flag is truthy when it is present and true. *)
Definition truthy (b : option bool) : bool :=
  match b with Some true => true | _ => false end.

Definition polylineVertexAngles (m : PolylineMeasurement) : list VertexAngle :=
  let segs := segments m in
  if Nat.ltb (length segs) 2 then []
  else
    let '(angles, prev) := interiorVertexAngles (start m) segs in
    if truthy (closed m) && Nat.leb 2 (length segs) then
      match nth_error segs (length segs - 1),
            nth_error segs (length segs - 2),
            nth_error segs 0 with
      | Some lastSeg, Some beforeLast, Some firstSeg =>
          let lastEnd := seg_end lastSeg in
          let hasExplicitClose :=
            Reqb (x lastEnd) (x (start m)) && Reqb (y lastEnd) (y (start m)) in
          let angles :=
            if negb hasExplicitClose
            then angles ++ [mkVertexAngle lastEnd prev (start m)
                              (vertexAngleDeg prev lastEnd (start m))]
            else angles in
          let prevToStart := if hasExplicitClose then seg_end beforeLast else lastEnd in
          let nextFromStart := seg_end firstSeg in
          angles ++ [mkVertexAngle (start m) prevToStart nextFromStart
                       (vertexAngleDeg prevToStart (start m) nextFromStart)]
      | _, _, _ => angles
      end
    else angles.

(** ** Closing an arc while it is held ([polyline-arc.ts]) *)

(** [snapArcToClose]: the last end is moved onto [start] and the bulge
    recomputed; as in [updateArcSegment] the tangent is always defined
    at the index asked for. *)
Definition snapArcToClose (m : PolylineMeasurement) : PolylineMeasurement :=
  let n := length (segments m) in
  match nth_error (segments m) (n - 1) with
  | None => m
  | Some lastSeg =>
      let lastSeg := set_end lastSeg (start m) in
      let m := set_segments m (list_set (segments m) (n - 1) lastSeg) in
      let segIdx := (n - 1)%nat in
      let segStart :=
        if Nat.leb 1 segIdx
        then match nth_error (segments m) (segIdx - 1) with
             | Some s => seg_end s
             | None => start m
             end
        else start m in
      match getPrevTangent m segIdx with
      | None => m
      | Some tangentDir =>
          match computeTangentArcBulge segStart (start m) tangentDir with
          | Some b => set_segments m (list_set (segments m) (n - 1) (set_bulge lastSeg b))
          | None => set_segments m (list_set (segments m) (n - 1) (delete_bulge lastSeg))
          end
      end
  end.

(** ** Hit-testing and editing of completed measurements ([tool-manager.ts]) *)

Definition measurementId (m : Measurement) : string :=
  match m with
  | Polyline m => poly_id m
  | Rectangle m => rect_id m
  | Circle m => circ_id m
  end.

Record Hit : Type := mkHit { hit_measurementId : string; pointIndex : nat }.

(** The inner loop of [findHoveredPoint], from index [j] on. *)
Fixpoint findNearIndex (pos : Point) (points : list Point) (j : nat) : option nat :=
  match points with
  | [] => None
  | p :: rest =>
      if pointNear pos p POINT_HIT_RADIUS then Some j
      else findNearIndex pos rest (S j)
  end.

(** The outer loop of [findHoveredPoint] over the measurements it still
    has to visit, the next one first. *)
Fixpoint findHoveredFrom (visit : list Measurement) (pos : Point) : option Hit :=
  match visit with
  | [] => None
  | m :: rest =>
      match findNearIndex pos (getMeasurementPoints m) 0 with
      | Some j => Some (mkHit (measurementId m) j)
      | None => findHoveredFrom rest pos
      end
  end.

(** The measurements are visited from the last one down to the first. *)
Definition findHoveredPoint (measurements : list Measurement) (pos : Point) : option Hit :=
  findHoveredFrom (rev measurements) pos.

(** [measurements.findIndex((m) => m.id === id)], [None] for -1. *)
Fixpoint findIndexById (measurements : list Measurement) (id : string) : option nat :=
  match measurements with
  | [] => None
  | m :: rest =>
      if String.eqb (measurementId m) id then Some 0%nat
      else option_map S (findIndexById rest id)
  end.

(** The last end of a polyline that has segments. *)
Definition lastEndOf (m : PolylineMeasurement) : option Point :=
  option_map seg_end (nth_error (segments m) (length (segments m) - 1)).

(** What [handleMouseMove] does to the dragged measurement [m] once it
    has found it: the write, then the close snap of an open polyline.
    The second component is [dragCloseSnapPoint]. *)
Definition dragMove (m : Measurement) (pointIndex : Z) (mousePos : Point)
  (shiftHeld : bool) : Measurement * option Point :=
  let m := setMeasurementPoint m pointIndex mousePos in
  match m with
  | Polyline pm =>
      if negb (truthy (closed pm)) && Nat.leb 2 (length (segments pm)) && negb shiftHeld
      then
        match nth_error (segments pm) (length (segments pm) - 1) with
        | Some lastSeg =>
            let lastEnd := seg_end lastSeg in
            if pointNear lastEnd (start pm) CLOSE_SNAP_RADIUS then
              let pts := getMeasurementPoints m in
              let lastPtIdx := (Z.of_nat (length pts) - 1)%Z in
              if (pointIndex =? 0)%Z
              then (Polyline (set_start pm lastEnd), Some lastEnd)
              else if (pointIndex =? lastPtIdx)%Z
              then (Polyline (set_segments pm
                                (list_set (segments pm) (length (segments pm) - 1)
                                   (set_end lastSeg (start pm)))),
                    Some (start pm))
              else (m, Some (start pm))
            else (m, None)
        | None => (m, None)
        end
      else (m, None)
  | _ => (m, None)
  end.


(** The point-removal branch of [handleDblClick], taken when the active
    tool has no measurement in progress: [Some] is the measurement list
    after the removal (the handler returns), [None] means the branch
    does not apply and the double click goes to the active tool. *)
Definition dblClickRemovePoint (measurements : list Measurement) (mousePos : Point)
  : option (list Measurement) :=
  match findHoveredPoint measurements mousePos with
  | None => None
  | Some hit =>
      match findIndexById measurements (hit_measurementId hit) with
      | None => None
      | Some mIdx =>
          match nth_error measurements mIdx with
          | Some (Polyline m) =>
              let m := removePolylinePoint m (Z.of_nat (pointIndex hit)) in
              if Nat.eqb (length (segments m)) 0
              then Some (splice1 measurements mIdx)
              else Some (list_set measurements mIdx (Polyline m))
          | _ => None
          end
      end
  end.

(** ** The other handlers of the line tool ([tools/line-tool.ts])

    The actions a line tool returns only ever carry a completed
    polyline: [None] is [{}], [Some m] is [{ completeMeasurement: m }]. *)

Definition onMouseUp (t : LineTool) (ctx : ToolContext)
  : LineTool * option PolylineMeasurement :=
  (* the pending timer is cleared first *)
  match isClosingSegment t, activeMeasurement t with
  | true, Some m =>
      let m := set_closed m true in
      let m :=
        match nth_error (segments m) (length (segments m) - 1) with
        | Some lastSeg =>
            match bulge lastSeg with
            | None => set_segments m (pop (segments m))
            | Some _ => m
            end
        | None => m
        end in
      (mkLineTool None false None false (arcIsNewSegment t) None (closeSnapActive t),
       Some m)
  | _, _ =>
      match isHoldingForArc t, activeMeasurement t with
      | true, Some m =>
          let wasNewSegment := arcIsNewSegment t in
          let '(m, result) := finalizeArc m (shiftHeld ctx) wasNewSegment in
          if arc_closed result
          then (mkLineTool None false None (isClosingSegment t) false None
                  (closeSnapActive t),
                Some m)
          else (mkLineTool (Some m) false None (isClosingSegment t) false
                  (currentSnap t) (closeSnapActive t),
                None)
      | _, _ =>
          (mkLineTool (activeMeasurement t) (isHoldingForArc t) None
             (isClosingSegment t) (arcIsNewSegment t) (currentSnap t)
             (closeSnapActive t),
           None)
      end
  end.

Definition onDblClick (t : LineTool) : LineTool * option PolylineMeasurement :=
  match activeMeasurement t with
  | Some m =>
      if Nat.leb 1 (length (segments m))
      then (mkLineTool None (isHoldingForArc t) (arcDragTimeout t) (isClosingSegment t)
              (arcIsNewSegment t) None (closeSnapActive t),
            Some m)
      else (t, None)
  | None => (t, None)
  end.

(** [onKeyDown]: the outer [None] is the [null] answer (key not
    handled). *)
Definition onKeyDown (t : LineTool) (key : string)
  : LineTool * option (option PolylineMeasurement) :=
  let handOff (m : PolylineMeasurement) :=
    (mkLineTool None (isHoldingForArc t) (arcDragTimeout t) (isClosingSegment t)
       (arcIsNewSegment t) None (closeSnapActive t),
     Some (Some m)) in
  if String.eqb key "Escape" then
    match activeMeasurement t with
    | Some m =>
        if Nat.leb 1 (length (segments m)) then handOff m
        else (mkLineTool None (isHoldingForArc t) (arcDragTimeout t)
                (isClosingSegment t) (arcIsNewSegment t) None (closeSnapActive t),
              Some None)
    | None => (t, None)
    end
  else if String.eqb key "Enter" then
    match activeMeasurement t with
    | Some m => if Nat.leb 1 (length (segments m)) then handOff m else (t, None)
    | None => (t, None)
    end
  else if String.eqb key "Delete" || String.eqb key "Backspace" then
    match activeMeasurement t with
    | Some m =>
        if Nat.ltb 0 (length (segments m))
        then (mkLineTool (Some (set_segments m (pop (segments m))))
                (isHoldingForArc t) (arcDragTimeout t) (isClosingSegment t)
                (arcIsNewSegment t) (currentSnap t) (closeSnapActive t),
              Some None)
        else (t, None)
    | None => (t, None)
    end
  else (t, None).

(** [finalize], which is all [onDeactivate] does. *)
Definition finalize (t : LineTool) : LineTool * option PolylineMeasurement :=
  match activeMeasurement t with
  | None => (t, None)
  | Some m =>
      let valid := Nat.leb 1 (length (segments m)) in
      (mkLineTool None false None false false None false,
       if valid then Some m else None)
  end.

Definition onDeactivate (t : LineTool) : LineTool * option PolylineMeasurement :=
  finalize t.



(** ** The line tool and its timers ([tools/line-tool.ts])

    [setTimeout] keeps a callback until it has run or until
    [clearTimeout] is called on its handle.  The tool keeps one handle,
    [arcDragTimeout]: [onClick] overwrites it without clearing the timer
    it named, [onMouseUp] and [finalize] clear the timer it names, and
    each callback sets it to [null] when it runs.  Several timers can
    therefore be pending, at most one of them reachable through the
    handle.

    A callback works on what it closed over: the context of its click
    and [mRef], the polyline object that was active at the click,
    whether or not the tool still holds it.  Polyline objects are given
    numbers; the object the tool holds has its state in
    [activeMeasurement], the objects the tool has let go of (handed off
    or dropped) have theirs in [released]. *)

Record PendingTimer : Type := mkPendingTimer {
  timer_handle : nat;
  timer_callback : ArcTimer;
  timer_mRef : nat
}.

Record Session : Type := mkSession {
  tool : LineTool;
  activeRef : nat;
  handle : option nat;
  timers : list PendingTimer;
  released : list (nat * PolylineMeasurement);
  fresh : nat
}.



(** The objects let go of once a handler has left the tool in state
    [t']: the object the tool held joins them when the tool holds none
    any more, in the state in which it was handed off. *)
Definition letGo (s : Session) (t' : LineTool) (completed : option PolylineMeasurement)
  : list (nat * PolylineMeasurement) :=
  match activeMeasurement (tool s), activeMeasurement t' with
  | Some m, None =>
      released s ++ [(activeRef s, match completed with Some c => c | None => m end)]
  | _, _ => released s
  end.



Definition key (s : Session) (k : string) : Session :=
  let '(t', actions) := onKeyDown (tool s) k in
  let completed := match actions with Some c => c | None => None end in
  mkSession t' (activeRef s) (handle s) (timers s) (letGo s t' completed) (fresh s).







(** ** The geometry kernel in binary64 ([utils.ts], [polyline-arc.ts])

    The same functions with numbers as the program has them: IEEE 754
    binary64 values.  [+], [-], [*], [/] and [Math.sqrt] are the
    correctly rounded operations, [x ** 2] is [x * x], a comparison with
    a NaN is false, and a decimal literal is the binary64 value nearest
    to it.  [%] is exact.  [Math.atan2], [Math.cos] and [Math.sin] are
    left to the engine by the language, except that a NaN argument gives
    NaN: an [Engine] holds the three functions of the engine. *)

Module Binary64.

#[local] Set Warnings "-inexact-float".
Local Open Scope float_scope.

Record Point : Type := mkPoint { x : float; y : float }.

Record PolylineSegment : Type := mkSegment {
  seg_end : Point;
  bulge : option Point
}.

Record PolylineMeasurement : Type := mkPolyline {
  poly_id : string;
  start : Point;
  segments : list PolylineSegment;
  closed : option bool
}.

Definition dist (a b : Point) : float :=
  PrimFloat.sqrt ((x b - x a) * (x b - x a) + (y b - y a) * (y b - y a)).

Record CircleResult : Type := mkCircleResult { cx : float; cy : float; r : float }.

Definition circumscribedCircle (p1 p2 p3 : Point) : option CircleResult :=
  let ax := x p1 in let ay := y p1 in
  let bx := x p2 in let by_ := y p2 in
  let cx := x p3 in let cy := y p3 in
  let D := 2 * (ax * (by_ - cy) + bx * (cy - ay) + cx * (ay - by_)) in
  if PrimFloat.abs D <? 1e-10 then None
  else
    let ux := ((ax * ax + ay * ay) * (by_ - cy) + (bx * bx + by_ * by_) * (cy - ay)
               + (cx * cx + cy * cy) * (ay - by_)) / D in
    let uy := ((ax * ax + ay * ay) * (cx - bx) + (bx * bx + by_ * by_) * (ax - cx)
               + (cx * cx + cy * cy) * (bx - ax)) / D in
    let r := PrimFloat.sqrt ((ax - ux) * (ax - ux) + (ay - uy) * (ay - uy)) in
    Some (mkCircleResult ux uy r).

(** [Math.PI], the binary64 value nearest to π. *)
Definition Math_PI : float := 0x1.921fb54442d18p+1.

(** [n % d]: [n - d * q] with [q] the quotient truncated towards zero,
    computed without rounding on the integer significands. *)
Definition rem (n d : float) : float :=
  match Prim2SF n, Prim2SF d with
  | S754_nan, _ | _, S754_nan => nan
  | S754_infinity _, _ => nan
  | _, S754_zero _ => nan
  | S754_zero _, _ => n
  | S754_finite _ _ _, S754_infinity _ => n
  | S754_finite sn mn en, S754_finite _ md ed =>
      let e := Z.min en ed in
      let a := (Zpos mn * 2 ^ (en - e))%Z in
      let b := (Zpos md * 2 ^ (ed - e))%Z in
      match (a mod b)%Z with
      | Zpos p => SF2Prim (S754_finite sn p e)
      | _ => if sn then neg_zero else zero
      end
  end.

Record Engine : Type := mkEngine {
  engine_atan2 : float -> float -> float;
  engine_cos : float -> float;
  engine_sin : float -> float
}.

Definition Math_atan2 (E : Engine) (b a : float) : float :=
  if is_nan b || is_nan a then nan else engine_atan2 E b a.

Definition Math_cos (E : Engine) (a : float) : float :=
  if is_nan a then nan else engine_cos E a.

Definition Math_sin (E : Engine) (a : float) : float :=
  if is_nan a then nan else engine_sin E a.

Definition normalizeAngle (a : float) : float :=
  let a := rem a (2 * Math_PI) in
  if a <? 0 then a + 2 * Math_PI else a.

Definition angleSweepThrough (a1 a2 a3 : float) : float :=
  let d2 := normalizeAngle (a2 - a1) in
  let d3 := normalizeAngle (a3 - a1) in
  if d2 <? d3 then d3 else d3 - 2 * Math_PI.

Definition computeTangentArcBulge (E : Engine) (segStart segEnd tangentDir : Point)
  : option Point :=
  let nx := - y tangentDir in
  let ny := x tangentDir in
  let dx := x segStart - x segEnd in
  let dy := y segStart - y segEnd in
  if dx * dx + dy * dy <? 1e-6 then None
  else
    let denom := 2 * (nx * dx + ny * dy) in
    if PrimFloat.abs denom <? 1e-6 then None
    else
      let t := - (dx * dx + dy * dy) / denom in
      let cx := x segStart + t * nx in
      let cy := y segStart + t * ny in
      let r := PrimFloat.abs t in
      let a1 := Math_atan2 E (y segStart - cy) (x segStart - cx) in
      let a3 := Math_atan2 E (y segEnd - cy) (x segEnd - cx) in
      let aMid :=
        if 0 <? t then
          let sweep := normalizeAngle (a3 - a1) in
          let sweep := if sweep =? 0 then 2 * Math_PI else sweep in
          a1 + sweep / 2
        else
          let sweep := normalizeAngle (a1 - a3) in
          let sweep := if sweep =? 0 then 2 * Math_PI else sweep in
          a1 - sweep / 2 in
      Some (mkPoint (cx + r * Math_cos E aMid) (cy + r * Math_sin E aMid)).

Definition prevDirection (E : Engine) (prevStart : Point) (prevSeg : PolylineSegment)
  : float * float :=
  match bulge prevSeg with
  | Some b =>
      match circumscribedCircle prevStart b (seg_end prevSeg) with
      | Some circle =>
          let rx := x (seg_end prevSeg) - cx circle in
          let ry := y (seg_end prevSeg) - cy circle in
          let a1 := Math_atan2 E (y prevStart - cy circle) (x prevStart - cx circle) in
          let a2 := Math_atan2 E (y b - cy circle) (x b - cx circle) in
          let a3 := Math_atan2 E (y (seg_end prevSeg) - cy circle)
                                 (x (seg_end prevSeg) - cx circle) in
          let sweep := angleSweepThrough a1 a2 a3 in
          if 0 <=? sweep then (- ry, rx) else (ry, - rx)
      | None =>
          (x (seg_end prevSeg) - x prevStart, y (seg_end prevSeg) - y prevStart)
      end
  | None =>
      (x (seg_end prevSeg) - x prevStart, y (seg_end prevSeg) - y prevStart)
  end.

(** [None] is the exception of reading [.end] of [undefined]. *)
Definition getPrevTangent (E : Engine) (m : PolylineMeasurement) (segIdx : nat)
  : option Point :=
  if Nat.eqb segIdx 0 then Some (mkPoint 1 0)
  else
    match nth_error (segments m) (segIdx - 1) with
    | None => None
    | Some prevSeg =>
        let prevStart :=
          if Nat.leb 2 segIdx
          then option_map seg_end (nth_error (segments m) (segIdx - 2))
          else Some (start m) in
        match prevStart with
        | None => None
        | Some prevStart =>
            let '(dx, dy) := prevDirection E prevStart prevSeg in
            let len := PrimFloat.sqrt (dx * dx + dy * dy) in
            if len <? 0.001 then Some (mkPoint 1 0)
            else Some (mkPoint (dx / len) (dy / len))
        end
    end.

End Binary64.

(** * Properties *)

(** ** The flattened list *)

Lemma fold_pushSegmentPoints (segs : list PolylineSegment) :
  forall acc, fold_left pushSegmentPoints segs acc = acc ++ flat_map segmentPoints segs.
Proof.
  induction segs as [|seg rest IH]; intros acc; simpl.
  - now rewrite app_nil_r.
  - rewrite IH. unfold pushSegmentPoints, segmentPoints.
    destruct (bulge seg); simpl; now rewrite <- !app_assoc.
Qed.

Lemma getMeasurementPoints_polyline (m : PolylineMeasurement) :
  getMeasurementPoints (Polyline m) = start m :: flat_map segmentPoints (segments m).
Proof. simpl. now rewrite fold_pushSegmentPoints. Qed.

Lemma segmentPoints_length (seg : PolylineSegment) :
  length (segmentPoints seg) = match bulge seg with Some _ => 2%nat | None => 1%nat end.
Proof. unfold segmentPoints. now destruct (bulge seg). Qed.

(** ** Writing a point *)

Lemma setSegmentsPoint_hit (segs : list PolylineSegment) (p : Point) :
  forall ci idx,
    (ci <= idx < ci + Z.of_nat (length (flat_map segmentPoints segs)))%Z ->
    nth_error (flat_map segmentPoints (setSegmentsPoint segs ci idx p))
      (Z.to_nat (idx - ci)) = Some p.
Proof.
  induction segs as [|seg rest IH]; intros ci idx H; simpl in H.
  - lia.
  - rewrite length_app, segmentPoints_length in H.
    cbn [setSegmentsPoint].
    destruct (bulge seg) as [b|] eqn:Hb.
    + destruct (Z.eqb_spec ci idx) as [->|Hne].
      * rewrite Z.sub_diag. reflexivity.
      * destruct (Z.eqb_spec (ci + 1) idx) as [<-|Hne'].
        -- replace (Z.to_nat (ci + 1 - ci)) with 1%nat by lia.
           cbn [flat_map]. unfold segmentPoints at 1, set_end.
           cbn [bulge seg_end]. now rewrite Hb.
        -- replace (Z.to_nat (idx - ci)) with (S (S (Z.to_nat (idx - (ci + 1 + 1))))) by lia.
           cbn [flat_map]. unfold segmentPoints at 1. rewrite Hb.
           cbn [app nth_error]. apply IH. lia.
    + destruct (Z.eqb_spec ci idx) as [->|Hne].
      * rewrite Z.sub_diag. cbn [flat_map]. unfold segmentPoints at 1, set_end.
        cbn [bulge seg_end]. now rewrite Hb.
      * replace (Z.to_nat (idx - ci)) with (S (Z.to_nat (idx - (ci + 1)))) by lia.
        cbn [flat_map]. unfold segmentPoints at 1. rewrite Hb.
        cbn [app nth_error]. apply IH. lia.
Qed.

Lemma setSegmentsPoint_miss (segs : list PolylineSegment) (p : Point) :
  forall ci idx,
    (idx < ci \/ ci + Z.of_nat (length (flat_map segmentPoints segs)) <= idx)%Z ->
    setSegmentsPoint segs ci idx p = segs.
Proof.
  induction segs as [|seg rest IH]; intros ci idx H; simpl in *; [reflexivity|].
  rewrite length_app, segmentPoints_length in H.
  destruct (bulge seg) as [b|] eqn:Hb.
  - destruct (Z.eqb_spec ci idx); [lia|].
    destruct (Z.eqb_spec (ci + 1) idx); [lia|].
    f_equal. apply IH. lia.
  - destruct (Z.eqb_spec ci idx); [lia|].
    f_equal. apply IH. lia.
Qed.

Lemma identifySegments_miss (segs : list PolylineSegment) :
  forall si ci idx,
    (idx < ci \/ ci + Z.of_nat (length (flat_map segmentPoints segs)) <= idx)%Z ->
    identifySegments segs si ci idx = None.
Proof.
  induction segs as [|seg rest IH]; intros si ci idx H; simpl in *; [reflexivity|].
  rewrite length_app, segmentPoints_length in H.
  destruct (bulge seg) as [b|] eqn:Hb.
  - destruct (Z.eqb_spec ci idx); [lia|].
    destruct (Z.eqb_spec (ci + 1) idx); [lia|].
    apply IH. lia.
  - destruct (Z.eqb_spec ci idx); [lia|].
    apply IH. lia.
Qed.


Lemma list_set_length {A : Type} (l : list A) :
  forall i v, length (list_set l i v) = length l.
Proof.
  induction l as [|h t IH]; intros [|i] v; simpl; auto.
Qed.

(** C1 (behaviour of the code at the explicit-close triangle): writing
    index 0 moves [start] to (5,5) and nothing else; the closing arc
    segment still ends at (0,0), so it no longer ends at [start].  On the
    implicit-close triangle the same write leaves every segment alone. *)
Theorem setMeasurementPoint_start_closed_arc :
  setMeasurementPoint (Polyline closedArcTriangle) 0 (mkPoint 5 5)
  = Polyline (mkPolyline "p-closed-arc"%string (mkPoint 5 5)
      [ mkSegment (mkPoint 100 0) None;
        mkSegment (mkPoint 50 80) None;
        mkSegment (mkPoint 0 0) (Some (mkPoint 10 40)) ]
      (Some true))
  /\ mkPoint 0 0 <> mkPoint 5 5
  /\ setMeasurementPoint (Polyline closedStraightTriangle) 0 (mkPoint 5 5)
     = Polyline (mkPolyline "p-closed-straight"%string (mkPoint 5 5)
         [ mkSegment (mkPoint 100 0) None;
           mkSegment (mkPoint 50 80) None ]
         (Some true)).
Proof.
  repeat split.
  intros H. apply (f_equal x) in H. simpl in H. lra.
Qed.

(** C2 (behaviour of the code at the explicit-close triangle): the
    flattened list has five points, the last one being the closing
    segment's end (0,0), a second copy of [start]; nothing is suppressed.
    The implicit-close triangle flattens to its three vertices. *)
Theorem getMeasurementPoints_closed_arc :
  getMeasurementPoints (Polyline closedArcTriangle)
  = [ mkPoint 0 0; mkPoint 100 0; mkPoint 50 80; mkPoint 10 40; mkPoint 0 0 ]
  /\ getMeasurementPoints (Polyline closedStraightTriangle)
     = [ mkPoint 0 0; mkPoint 100 0; mkPoint 50 80 ].
Proof. split; reflexivity. Qed.

(** C3 (as amended): for a valid flattened index, reading back the point
    just written gives that point for a polyline, a rectangle and the
    center of a circle (index 0); for the edge point of a circle
    (index 1) the write only sets the radius to the distance from the
    center to [p], and the point read back is
    [(center.x + dist(center, p), center.y)]. *)
Theorem writePoint_roundtrip (m : Measurement) (idx : Z) (p : Point) :
  validIndex m idx ->
  pointAt (setMeasurementPoint m idx p) idx
  = Some (match m with
          | Circle c =>
              if (idx =? 1)%Z
              then mkPoint (x (center c) + dist (center c) p) (y (center c))
              else p
          | _ => p
          end).
Proof.
  unfold validIndex, pointAt. intros H.
  destruct (Z.ltb_spec idx 0) as [Hneg|_]; [lia|].
  destruct m as [m|m|m].
  - rewrite getMeasurementPoints_polyline in H. simpl length in H.
    unfold setMeasurementPoint.
    destruct (Z.eqb_spec idx 0) as [->|Hne].
    + now rewrite getMeasurementPoints_polyline.
    + rewrite getMeasurementPoints_polyline.
      replace (Z.to_nat idx) with (S (Z.to_nat (idx - 1))) by lia.
      cbn [nth_error set_segments segments]. apply setSegmentsPoint_hit. lia.
  - simpl in H. unfold setMeasurementPoint.
    destruct (Z.eqb_spec idx 0) as [->|Hne]; [reflexivity|].
    destruct (Z.eqb_spec idx 1) as [->|Hne']; [reflexivity|lia].
  - simpl in H. unfold setMeasurementPoint.
    destruct (Z.eqb_spec idx 0) as [->|Hne]; [reflexivity|].
    destruct (Z.eqb_spec idx 1) as [->|Hne']; [reflexivity|lia].
Qed.

Lemma writePoint_roundtrip_witness :
  pointAt (setMeasurementPoint (Polyline closedArcTriangle) 3 (mkPoint 7 9)) 3
  = Some (mkPoint 7 9).
Proof.
  apply (writePoint_roundtrip (Polyline closedArcTriangle) 3 (mkPoint 7 9)).
  unfold validIndex. simpl. lia.
Defined.

(** C3 (as stated) fails on the edge point of a circle: after writing
    (30,40) at index 1 of the circle centered at the origin, index 1 of
    the flattened list is a point of ordinate 0, not (30,40). *)
Lemma writePoint_roundtrip_circle_edge :
  validIndex (Circle (mkCircle "c1"%string (mkPoint 0 0) 50)) 1 /\
  pointAt (setMeasurementPoint (Circle (mkCircle "c1"%string (mkPoint 0 0) 50)) 1
             (mkPoint 30 40)) 1
  <> Some (mkPoint 30 40).
Proof.
  split.
  - unfold validIndex. simpl. lia.
  - cbn. intros H. injection H as _ Hy. lra.
Qed.

(** ** Removing a point *)

Lemma splice1_length {A : Type} (l : list A) (i : nat) :
  (i < length l)%nat -> S (length (splice1 l i)) = length l.
Proof.
  intros H. unfold splice1.
  rewrite length_app, length_firstn, length_skipn. lia.
Qed.



(** C10: an index that names no flattened control point of a polyline
    (negative, or at least the length of the flattened list) makes both
    [setMeasurementPoint] and [removePolylinePoint] return the polyline
    as it was: same id, start, segments (ends and bulges) and closed
    flag. *)
Theorem out_of_range_index_is_noop (m : PolylineMeasurement) (idx : Z) (p : Point) :
  (idx < 0 \/ Z.of_nat (length (getMeasurementPoints (Polyline m))) <= idx)%Z ->
  setMeasurementPoint (Polyline m) idx p = Polyline m
  /\ removePolylinePoint m idx = m.
Proof.
  rewrite getMeasurementPoints_polyline. simpl length. intros H.
  unfold setMeasurementPoint, removePolylinePoint, identifyPolylinePoint.
  destruct (Z.eqb_spec idx 0) as [->|Hne]; [lia|].
  rewrite setSegmentsPoint_miss by lia.
  rewrite identifySegments_miss by lia.
  split; [|reflexivity]. now destruct m.
Qed.

Lemma out_of_range_index_is_noop_witness :
  setMeasurementPoint (Polyline closedArcTriangle) 5 (mkPoint 1 2)
  = Polyline closedArcTriangle
  /\ removePolylinePoint closedArcTriangle 5 = closedArcTriangle.
Proof.
  apply (out_of_range_index_is_noop closedArcTriangle 5 (mkPoint 1 2)).
  right. simpl. lia.
Defined.

(** ** Comparisons and distances *)

Lemma Rltb_true (a b : R) : Rltb a b = true <-> a < b.
Proof. unfold Rltb. destruct (Rlt_dec a b); split; auto; discriminate. Qed.

Lemma Rltb_false (a b : R) : Rltb a b = false <-> b <= a.
Proof. unfold Rltb. destruct (Rlt_dec a b); split; auto; try discriminate; lra. Qed.

Lemma Rleb_true (a b : R) : Rleb a b = true <-> a <= b.
Proof. unfold Rleb. destruct (Rle_dec a b); split; auto; discriminate. Qed.

Lemma Rleb_false (a b : R) : Rleb a b = false <-> b < a.
Proof. unfold Rleb. destruct (Rle_dec a b); split; auto; try discriminate; lra. Qed.

Lemma dist_nonneg (a b : Point) : 0 <= dist a b.
Proof. apply sqrt_pos. Qed.

Lemma dist_sqr (a b : Point) :
  dist a b * dist a b = (x b - x a) ^ 2 + (y b - y a) ^ 2.
Proof.
  unfold dist. apply sqrt_sqrt.
  apply Rplus_le_le_0_compat; apply pow2_ge_0.
Qed.

Lemma dist_le_iff (a b : Point) (t : R) :
  0 <= t -> (dist a b <= t <-> (x b - x a) ^ 2 + (y b - y a) ^ 2 <= t * t).
Proof.
  intros Ht. pose proof (dist_nonneg a b) as Hd. rewrite <- dist_sqr.
  split; intros H; nra.
Qed.

Lemma pointNear_true (p q : Point) (t : R) : pointNear p q t = true <-> dist p q <= t.
Proof. apply Rleb_true. Qed.

Lemma pointNear_false (p q : Point) (t : R) : pointNear p q t = false <-> t < dist p q.
Proof. apply Rleb_false. Qed.

(** ** Releasing a held arc *)

Lemma nth_error_snoc2_last {A : Type} (l : list A) (a b : A) :
  nth_error (l ++ [a; b]) (length (l ++ [a; b]) - 1) = Some b.
Proof.
  rewrite length_app. simpl length.
  replace (length l + 2 - 1)%nat with (length l + 1)%nat by lia.
  rewrite nth_error_app2 by lia.
  replace (length l + 1 - length l)%nat with 1%nat by lia. reflexivity.
Qed.

Lemma nth_error_snoc2_prev {A : Type} (l : list A) (a b : A) :
  nth_error (l ++ [a; b]) (length (l ++ [a; b]) - 2) = Some a.
Proof.
  rewrite length_app. simpl length.
  replace (length l + 2 - 2)%nat with (length l + 0)%nat by lia.
  rewrite nth_error_app2 by lia.
  replace (length l + 0 - length l)%nat with 0%nat by lia. reflexivity.
Qed.

Lemma list_set_snoc2_last {A : Type} (l : list A) (a b v : A) :
  list_set (l ++ [a; b]) (length (l ++ [a; b]) - 1) v = l ++ [a; v].
Proof.
  rewrite length_app. simpl length.
  replace (length l + 2 - 1)%nat with (S (length l)) by lia.
  induction l as [|h t IH]; simpl; [reflexivity|]. now rewrite IH.
Qed.

Lemma pop_snoc2 {A : Type} (l : list A) (a b : A) : pop (l ++ [a; b]) = l ++ [a].
Proof.
  unfold pop. change [a; b] with ([a] ++ [b]). rewrite app_assoc.
  apply removelast_last.
Qed.

(** C6 (as amended): the release policy of [finalizeArc].  With fewer
    than two segments nothing happens, whatever the distances.  With at
    least two segments: (1) when shift is not held and the last segment's
    end lies within [CLOSE_SNAP_RADIUS] of [start], that end is set to
    [start] and [closed] to true, before anything else is looked at;
    (2) otherwise, in new-segment mode, when the last segment's end is
    closer than 2 units to the previous segment's end, the last segment
    is removed; (3) otherwise the polyline is left as drawn. *)
Theorem finalizeArc_policy (m : PolylineMeasurement) (shift wasNewSegment : bool) :
  ((length (segments m) < 2)%nat ->
     finalizeArc m shift wasNewSegment = (m, mkArcReleaseResult false false))
  /\
  forall prevSegs prevSeg lastSeg,
    segments m = prevSegs ++ [prevSeg; lastSeg] ->
    (shift = false -> dist (seg_end lastSeg) (start m) <= CLOSE_SNAP_RADIUS ->
       finalizeArc m shift wasNewSegment
       = (mkPolyline (poly_id m) (start m)
            (prevSegs ++ [prevSeg; mkSegment (start m) (bulge lastSeg)]) (Some true),
          mkArcReleaseResult true false))
    /\
    (shift = true \/ CLOSE_SNAP_RADIUS < dist (seg_end lastSeg) (start m) ->
       (wasNewSegment = true -> dist (seg_end prevSeg) (seg_end lastSeg) < 2 ->
          finalizeArc m shift wasNewSegment
          = (mkPolyline (poly_id m) (start m) (prevSegs ++ [prevSeg]) (closed m),
             mkArcReleaseResult false true))
       /\
       (wasNewSegment = false \/ 2 <= dist (seg_end prevSeg) (seg_end lastSeg) ->
          finalizeArc m shift wasNewSegment = (m, mkArcReleaseResult false false))).
Proof.
  split.
  - intros Hn. unfold finalizeArc, removeDegenerateArc.
    destruct (Nat.leb_spec 2 (length (segments m))) as [H2|_]; [lia|].
    now rewrite andb_false_r.
  - intros prevSegs prevSeg lastSeg Hsegs.
    assert (Hlen : (2 <= length (segments m))%nat)
      by (rewrite Hsegs, length_app; simpl; lia).
    assert (Hclose_off :
      shift = true \/ CLOSE_SNAP_RADIUS < dist (seg_end lastSeg) (start m) ->
      finalizeArc m shift wasNewSegment = removeDegenerateArc m wasNewSegment).
    { intros Hoff. unfold finalizeArc.
      destruct (Nat.leb_spec 2 (length (segments m))) as [_|]; [|lia].
      rewrite Hsegs, nth_error_snoc2_last.
      destruct Hoff as [->|Hfar]; [reflexivity|].
      apply pointNear_false in Hfar. rewrite Hfar. now rewrite andb_false_r. }
    split; [|intros Hoff; rewrite (Hclose_off Hoff); clear Hclose_off; split].
    + intros -> Hnear. unfold finalizeArc.
      destruct (Nat.leb_spec 2 (length (segments m))) as [_|]; [|lia].
      rewrite Hsegs, nth_error_snoc2_last.
      apply pointNear_true in Hnear. rewrite Hnear. cbn [negb andb].
      unfold set_closed, set_segments, set_end. cbn [poly_id start segments closed].
      now rewrite list_set_snoc2_last.
    + intros -> Hdeg. unfold removeDegenerateArc.
      destruct (Nat.leb_spec 2 (length (segments m))) as [_|]; [|lia].
      cbn [andb]. rewrite Hsegs, nth_error_snoc2_last, nth_error_snoc2_prev.
      apply Rltb_true in Hdeg. rewrite Hdeg.
      unfold set_segments. now rewrite pop_snoc2.
    + intros Hkeep. unfold removeDegenerateArc.
      destruct Hkeep as [->|Hlong]; [reflexivity|].
      destruct (wasNewSegment && Nat.leb 2 (length (segments m))); [|reflexivity].
      rewrite Hsegs, nth_error_snoc2_last, nth_error_snoc2_prev.
      apply Rltb_false in Hlong. now rewrite Hlong.
Qed.

Lemma finalizeArc_policy_witness :
  finalizeArc openLoop false false
  = (mkPolyline "p2"%string (mkPoint 0 0)
       [ mkSegment (mkPoint 100 0) None;
         mkSegment (mkPoint 100 100) None;
         mkSegment (mkPoint 0 0) (Some (mkPoint 60 60)) ]
       (Some true),
     mkArcReleaseResult true false).
Proof.
  apply (proj2 (finalizeArc_policy openLoop false false)
           [mkSegment (mkPoint 100 0) None]
           (mkSegment (mkPoint 100 100) None)
           (mkSegment (mkPoint 5 5) (Some (mkPoint 60 60)))).
  - reflexivity.
  - reflexivity.
  - apply dist_le_iff; unfold CLOSE_SNAP_RADIUS; simpl; lra.
Defined.

(** C6 (as stated) fails on a polyline of a single segment: its end
    (5,0) is within [CLOSE_SNAP_RADIUS] of [start] and shift is not held,
    yet [finalizeArc] neither moves the end nor sets [closed]. *)
Lemma finalizeArc_single_segment_not_closed :
  dist (mkPoint 5 0) (start shortStroke) <= CLOSE_SNAP_RADIUS
  /\ finalizeArc shortStroke false false
     = (shortStroke, mkArcReleaseResult false false)
  /\ closed (fst (finalizeArc shortStroke false false)) <> Some true.
Proof.
  split; [|split].
  - apply dist_le_iff; unfold CLOSE_SNAP_RADIUS; simpl; lra.
  - reflexivity.
  - discriminate.
Qed.

(** ** Arrays that end with a given segment *)

Lemma nth_error_snoc_last {A : Type} (l : list A) (a : A) :
  nth_error (l ++ [a]) (length (l ++ [a]) - 1) = Some a.
Proof.
  rewrite length_app. simpl length.
  replace (length l + 1 - 1)%nat with (length l + 0)%nat by lia.
  rewrite nth_error_app2 by lia.
  replace (length l + 0 - length l)%nat with 0%nat by lia. reflexivity.
Qed.

Lemma list_set_snoc_last {A : Type} (l : list A) (a v : A) :
  list_set (l ++ [a]) (length (l ++ [a]) - 1) v = l ++ [v].
Proof.
  rewrite length_app. simpl length.
  replace (length l + 1 - 1)%nat with (length l) by lia.
  induction l as [|h t IH]; simpl; [reflexivity|]. now rewrite IH.
Qed.

Lemma list_set_snoc_last' {A : Type} (l : list A) (a a' v : A) :
  list_set (l ++ [a]) (length (l ++ [a']) - 1) v = l ++ [v].
Proof.
  replace (length (l ++ [a'])) with (length (l ++ [a]))
    by (rewrite !length_app; reflexivity).
  apply list_set_snoc_last.
Qed.


(** * Further properties of the code *)

(** ** Distances *)

Lemma dist_same (p : Point) : dist p p = 0.
Proof.
  unfold dist.
  replace ((x p - x p) ^ 2 + (y p - y p) ^ 2) with 0 by ring.
  apply sqrt_0.
Qed.

(** ** Vertex angles *)

Lemma last_cons_default {A : Type} (a d : A) (l : list A) :
  last (a :: l) d = last l a.
Proof.
  revert a d. induction l as [|b l IH]; intros a d; [reflexivity|].
  change (last (a :: b :: l) d) with (last (b :: l) d).
  now rewrite !IH.
Qed.

Lemma interiorVertexAngles_vertices (segs : list PolylineSegment) :
  forall p,
    map vertex (fst (interiorVertexAngles p segs)) = map seg_end (removelast segs)
    /\ snd (interiorVertexAngles p segs) = last (map seg_end (removelast segs)) p.
Proof.
  induction segs as [|s rest IH]; intros p; [split; reflexivity|].
  destruct rest as [|s' rest']; [split; reflexivity|].
  change (interiorVertexAngles p (s :: s' :: rest'))
    with (let '(angles, prev') := interiorVertexAngles (seg_end s) (s' :: rest') in
          (mkVertexAngle (seg_end s) p (seg_end s')
             (vertexAngleDeg p (seg_end s) (seg_end s')) :: angles, prev')).
  specialize (IH (seg_end s)).
  destruct (interiorVertexAngles (seg_end s) (s' :: rest')) as [angles prev'].
  cbn [fst snd] in *. destruct IH as [IH1 IH2].
  change (removelast (s :: s' :: rest')) with (s :: removelast (s' :: rest')).
  cbn [map vertex]. rewrite IH1, IH2. split; [reflexivity|].
  symmetry. apply last_cons_default.
Qed.

(** X8: [polylineVertexAngles] returns one angle per junction vertex,
    in order.  With fewer than two segments there is none.  Otherwise an
    open polyline gets the ends of all segments but the last; a closed
    one whose last segment ends on [start] gets those and [start]; a
    closed one whose last end is a vertex of its own gets every end and
    [start]. *)
Theorem polylineVertexAngles_vertices (m : PolylineMeasurement)
  (pre : list PolylineSegment) (lastSeg : PolylineSegment) :
  segments m = pre ++ [lastSeg] ->
  (pre = [] -> polylineVertexAngles m = [])
  /\ (pre <> [] ->
      map vertex (polylineVertexAngles m)
      = if truthy (closed m)
        then if Reqb (x (seg_end lastSeg)) (x (start m))
                && Reqb (y (seg_end lastSeg)) (y (start m))
             then map seg_end pre ++ [start m]
             else map seg_end pre ++ [seg_end lastSeg; start m]
        else map seg_end pre).
Proof.
  intros Hsegs. unfold polylineVertexAngles. rewrite Hsegs. split.
  - intros ->. reflexivity.
  - intros Hpre.
    assert (Hlen : (2 <= length (pre ++ [lastSeg]))%nat).
    { rewrite length_app. destruct pre; [contradiction|]. simpl. lia. }
    destruct (Nat.ltb_spec (length (pre ++ [lastSeg])) 2) as [|_]; [lia|].
    destruct (Nat.leb_spec 2 (length (pre ++ [lastSeg]))) as [_|]; [|lia].
    destruct (interiorVertexAngles_vertices (pre ++ [lastSeg]) (start m)) as [Hv Hp].
    rewrite removelast_last in Hv, Hp.
    destruct (interiorVertexAngles (start m) (pre ++ [lastSeg])) as [angles prev0].
    cbn [fst snd] in Hv, Hp.
    destruct (truthy (closed m)); cbn [andb]; [|exact Hv].
    rewrite nth_error_snoc_last.
    destruct pre as [|first pre'] using rev_ind; [contradiction|]. clear IHpre'.
    rewrite <- app_assoc. cbn [app].
    rewrite nth_error_snoc2_prev.
    assert (H0 : exists s0, nth_error (pre' ++ [first; lastSeg]) 0 = Some s0)
      by (destruct pre'; eexists; reflexivity).
    destruct H0 as [s0 ->].
    destruct (Reqb (x (seg_end lastSeg)) (x (start m))
              && Reqb (y (seg_end lastSeg)) (y (start m))); cbn [negb].
    + rewrite map_app. cbn [map vertex]. now rewrite Hv.
    + rewrite (map_app vertex), (map_app vertex). cbn [map vertex].
      rewrite Hv, <- !app_assoc. reflexivity.
Qed.

Lemma polylineVertexAngles_vertices_witness :
  map vertex (polylineVertexAngles closedStraightTriangle)
  = [mkPoint 100 0; mkPoint 50 80; mkPoint 0 0].
Proof.
  pose proof (proj2 (polylineVertexAngles_vertices closedStraightTriangle
                       [mkSegment (mkPoint 100 0) None]
                       (mkSegment (mkPoint 50 80) None) eq_refl)) as H.
  rewrite H by discriminate.
  cbn [closedStraightTriangle closed truthy start seg_end x y map app].
  assert (E : Reqb 50 0 = false).
  { unfold Reqb. destruct (Req_dec_T 50 0); [lra|reflexivity]. }
  rewrite E. reflexivity.
Defined.

(** ** Hit-testing *)

Lemma findNearIndex_some (pos : Point) (pts : list Point) :
  forall j k,
    findNearIndex pos pts j = Some k ->
    (j <= k)%nat
    /\ exists p, nth_error pts (k - j) = Some p /\ dist pos p <= POINT_HIT_RADIUS.
Proof.
  induction pts as [|q rest IH]; intros j k H; cbn [findNearIndex] in H;
    [discriminate|].
  destruct (pointNear pos q POINT_HIT_RADIUS) eqn:E.
  - injection H as <-. split; [lia|]. exists q. rewrite Nat.sub_diag.
    split; [reflexivity|now apply pointNear_true].
  - destruct (IH _ _ H) as [Hle (p & Hp & Hd)]. split; [lia|].
    exists p. replace (k - j)%nat with (S (k - S j)) by lia. now split.
Qed.

Lemma findNearIndex_none (pos : Point) (pts : list Point) :
  forall j,
    findNearIndex pos pts j = None <->
    (forall p, In p pts -> POINT_HIT_RADIUS < dist pos p).
Proof.
  induction pts as [|q rest IH]; intros j; cbn [findNearIndex].
  - split; [intros _ p []|reflexivity].
  - destruct (pointNear pos q POINT_HIT_RADIUS) eqn:E.
    + apply pointNear_true in E. split; [discriminate|].
      intros H. specialize (H q (or_introl eq_refl)). lra.
    + apply pointNear_false in E. rewrite IH. split.
      * intros H p [<-|Hin]; auto.
      * intros H p Hin. apply H. now right.
Qed.

Lemma findHoveredFrom_spec (visit : list Measurement) (pos : Point) :
  match findHoveredFrom visit pos with
  | Some h =>
      exists m p, In m visit /\ measurementId m = hit_measurementId h
        /\ nth_error (getMeasurementPoints m) (pointIndex h) = Some p
        /\ dist pos p <= POINT_HIT_RADIUS
  | None =>
      forall m p, In m visit -> In p (getMeasurementPoints m) ->
        POINT_HIT_RADIUS < dist pos p
  end.
Proof.
  induction visit as [|m rest IH]; cbn [findHoveredFrom]; [intros m p []|].
  destruct (findNearIndex pos (getMeasurementPoints m) 0) as [j|] eqn:E.
  - destruct (findNearIndex_some _ _ _ _ E) as [_ (p & Hp & Hd)].
    rewrite Nat.sub_0_r in Hp. exists m, p. cbn. auto.
  - destruct (findHoveredFrom rest pos) as [h|].
    + destruct IH as (m' & p & Hin & Hrest). exists m', p. split; [now right|exact Hrest].
    + intros m' p [<-|Hin] Hp.
      * now apply (proj1 (findNearIndex_none pos _ 0) E).
      * now apply (IH m' p).
Qed.

(** X12: [findHoveredPoint] answers with a control point that is really
    within [POINT_HIT_RADIUS] of the position, named by the id of its
    measurement and its flattened index; it answers null only when every
    control point of every measurement is farther away; and a
    measurement added last wins over all the others whenever one of its
    points is within reach. *)
Theorem findHoveredPoint_hits (measurements : list Measurement) (pos : Point) :
  match findHoveredPoint measurements pos with
  | Some h =>
      exists m p, In m measurements /\ measurementId m = hit_measurementId h
        /\ nth_error (getMeasurementPoints m) (pointIndex h) = Some p
        /\ dist pos p <= POINT_HIT_RADIUS
  | None =>
      forall m p, In m measurements -> In p (getMeasurementPoints m) ->
        POINT_HIT_RADIUS < dist pos p
  end
  /\ (forall top p,
        In p (getMeasurementPoints top) -> dist pos p <= POINT_HIT_RADIUS ->
        exists j, findHoveredPoint (measurements ++ [top]) pos
                  = Some (mkHit (measurementId top) j)).
Proof.
  split.
  - unfold findHoveredPoint.
    pose proof (findHoveredFrom_spec (rev measurements) pos) as H.
    destruct (findHoveredFrom (rev measurements) pos) as [h|].
    + destruct H as (m & p & Hin & Hrest). exists m, p.
      split; [now apply in_rev|exact Hrest].
    + intros m p Hin. apply H. now apply in_rev in Hin.
  - intros top p Hin Hd. unfold findHoveredPoint.
    rewrite rev_app_distr. cbn [rev app findHoveredFrom].
    destruct (findNearIndex pos (getMeasurementPoints top) 0) as [j|] eqn:E.
    + now exists j.
    + pose proof (proj1 (findNearIndex_none pos _ 0) E p Hin). lra.
Qed.

(** ** Writing a point, seen on the flattened list *)

Lemma setSegmentsPoint_flat (segs : list PolylineSegment) (p : Point) :
  forall ci idx,
    (ci <= idx < ci + Z.of_nat (length (flat_map segmentPoints segs)))%Z ->
    flat_map segmentPoints (setSegmentsPoint segs ci idx p)
    = list_set (flat_map segmentPoints segs) (Z.to_nat (idx - ci)) p.
Proof.
  induction segs as [|seg rest IH]; intros ci idx H; simpl in H; [lia|].
  rewrite length_app, segmentPoints_length in H.
  cbn [setSegmentsPoint flat_map]. unfold segmentPoints at 2.
  destruct (bulge seg) as [b|] eqn:Hb.
  - destruct (Z.eqb_spec ci idx) as [->|Hne].
    + rewrite Z.sub_diag. reflexivity.
    + destruct (Z.eqb_spec (ci + 1) idx) as [<-|Hne'].
      * replace (Z.to_nat (ci + 1 - ci)) with 1%nat by lia.
        cbn [flat_map]. unfold segmentPoints at 1, set_end.
        cbn [bulge seg_end]. now rewrite Hb.
      * replace (Z.to_nat (idx - ci)) with (S (S (Z.to_nat (idx - (ci + 1 + 1))))) by lia.
        cbn [flat_map]. unfold segmentPoints at 1. rewrite Hb.
        cbn [app list_set]. do 2 f_equal. apply IH. lia.
  - destruct (Z.eqb_spec ci idx) as [->|Hne].
    + rewrite Z.sub_diag. cbn [flat_map]. unfold segmentPoints at 1, set_end.
      cbn [bulge seg_end]. now rewrite Hb.
    + replace (Z.to_nat (idx - ci)) with (S (Z.to_nat (idx - (ci + 1)))) by lia.
      cbn [flat_map]. unfold segmentPoints at 1. rewrite Hb.
      cbn [app list_set]. f_equal. apply IH. lia.
Qed.

(** X13: on a polyline or a rectangle, writing a point at a valid index
    replaces that entry of the flattened control-point list and leaves
    every other entry, and the number of entries, as they were. *)
Theorem setMeasurementPoint_updates_one (m : Measurement) (idx : Z) (p : Point) :
  validIndex m idx ->
  (forall c, m <> Circle c) ->
  getMeasurementPoints (setMeasurementPoint m idx p)
  = list_set (getMeasurementPoints m) (Z.to_nat idx) p.
Proof.
  unfold validIndex. intros H Hnc.
  destruct m as [m|m|c]; [| |now elim (Hnc c)].
  - rewrite getMeasurementPoints_polyline in *. simpl length in H.
    unfold setMeasurementPoint.
    destruct (Z.eqb_spec idx 0) as [->|Hne].
    + now rewrite getMeasurementPoints_polyline.
    + rewrite getMeasurementPoints_polyline.
      replace (Z.to_nat idx) with (S (Z.to_nat (idx - 1))) by lia.
      cbn [set_segments segments start list_set]. f_equal.
      apply setSegmentsPoint_flat. lia.
  - simpl in H. unfold setMeasurementPoint.
    destruct (Z.eqb_spec idx 0) as [->|Hne]; [reflexivity|].
    destruct (Z.eqb_spec idx 1) as [->|Hne']; [reflexivity|lia].
Qed.

Lemma setMeasurementPoint_updates_one_witness :
  getMeasurementPoints (setMeasurementPoint (Polyline closedArcTriangle) 3 (mkPoint 7 9))
  = list_set (getMeasurementPoints (Polyline closedArcTriangle)) 3 (mkPoint 7 9).
Proof.
  apply (setMeasurementPoint_updates_one (Polyline closedArcTriangle) 3 (mkPoint 7 9)).
  - unfold validIndex. simpl. lia.
  - discriminate.
Defined.

(** ** Dragging a point of a completed polyline *)

Lemma setSegmentsPoint_length (segs : list PolylineSegment) (p : Point) :
  forall ci idx, length (setSegmentsPoint segs ci idx p) = length segs.
Proof.
  induction segs as [|seg rest IH]; intros ci idx; cbn [setSegmentsPoint]; [reflexivity|].
  destruct (bulge seg); repeat destruct (_ =? _)%Z; cbn [length]; auto.
Qed.

Lemma setSegmentsPoint_flat_length (segs : list PolylineSegment) (p : Point) :
  forall ci idx,
    length (flat_map segmentPoints (setSegmentsPoint segs ci idx p))
    = length (flat_map segmentPoints segs).
Proof.
  induction segs as [|seg rest IH]; intros ci idx; cbn [setSegmentsPoint]; [reflexivity|].
  destruct (bulge seg) as [b|] eqn:Hb; repeat destruct (_ =? _)%Z;
    cbn [flat_map]; rewrite !length_app, ?IH, !segmentPoints_length;
    unfold set_bulge, set_end; cbn [bulge]; rewrite ?Hb; reflexivity.
Qed.

Lemma setMeasurementPoint_polyline (pm : PolylineMeasurement) (idx : Z) (p : Point) :
  exists w,
    setMeasurementPoint (Polyline pm) idx p = Polyline w
    /\ closed w = closed pm /\ poly_id w = poly_id pm
    /\ length (segments w) = length (segments pm).
Proof.
  unfold setMeasurementPoint. destruct (idx =? 0)%Z.
  - eexists. split; [reflexivity|]. auto.
  - eexists. split; [reflexivity|]. cbn [set_segments closed poly_id segments].
    repeat split. apply setSegmentsPoint_length.
Qed.

Lemma nth_error_list_set_same {A : Type} (l : list A) :
  forall i v, (i < length l)%nat -> nth_error (list_set l i v) i = Some v.
Proof.
  induction l as [|h t IH]; intros [|i] v H; simpl in *; try lia; [reflexivity|].
  apply IH. lia.
Qed.


(** X16: while a point of a polyline is dragged, the close-snap ring is
    shown only for an open polyline of at least two segments with shift
    not held, and always at the polyline's start; when the dragged point
    is the start or the last point, the start and the last end then
    coincide exactly.  Without a ring the polyline is just the result of
    the write. *)
Theorem dragMove_ring (pm : PolylineMeasurement) (idx : Z) (p : Point) (shift : bool) :
  match dragMove (Polyline pm) idx p shift with
  | (m', Some ring) =>
      exists pm',
        m' = Polyline pm' /\ ring = start pm'
        /\ shift = false /\ truthy (closed pm') = false
        /\ (2 <= length (segments pm'))%nat
        /\ exists e, lastEndOf pm' = Some e
             /\ dist e (start pm') <= CLOSE_SNAP_RADIUS
             /\ (idx = 0%Z
                 \/ idx = (Z.of_nat (length (getMeasurementPoints (Polyline pm))) - 1)%Z ->
                 e = start pm')
  | (m', None) => m' = setMeasurementPoint (Polyline pm) idx p
  end.
Proof.
  destruct (setMeasurementPoint_polyline pm idx p) as (w & Hw & Hcl & _ & Hlen).
  assert (Hpts : length (getMeasurementPoints (Polyline w))
                 = length (getMeasurementPoints (Polyline pm))).
  { rewrite <- Hw. unfold setMeasurementPoint.
    destruct (idx =? 0)%Z; rewrite !getMeasurementPoints_polyline;
      cbn [length set_start set_segments segments]; [reflexivity|].
    now rewrite setSegmentsPoint_flat_length. }
  unfold dragMove. rewrite Hw.
  destruct (truthy (closed w)) eqn:Hopen; cbn [negb andb]; [reflexivity|].
  destruct (Nat.leb_spec 2 (length (segments w))) as [H2|H2]; cbn [andb];
    [|reflexivity].
  destruct shift; cbn [negb]; [reflexivity|].
  destruct (nth_error (segments w) (length (segments w) - 1)) as [lastSeg|] eqn:Hlast;
    [|reflexivity].
  destruct (pointNear (seg_end lastSeg) (start w) CLOSE_SNAP_RADIUS) eqn:Hnear;
    [|reflexivity].
  apply pointNear_true in Hnear. rewrite Hpts.
  assert (Hzero : dist (seg_end lastSeg) (seg_end lastSeg) <= CLOSE_SNAP_RADIUS).
  { replace (dist (seg_end lastSeg) (seg_end lastSeg)) with 0.
    - unfold CLOSE_SNAP_RADIUS. lra.
    - symmetry. apply dist_same. }
  assert (Hzero' : dist (start w) (start w) <= CLOSE_SNAP_RADIUS).
  { replace (dist (start w) (start w)) with 0.
    - unfold CLOSE_SNAP_RADIUS. lra.
    - symmetry. apply dist_same. }
  destruct (Z.eqb_spec idx 0) as [Hi0|Hi0].
  - eexists. split; [reflexivity|].
    unfold lastEndOf. cbn [set_start start closed segments].
    rewrite Hlast. cbn [option_map].
    repeat split; auto. exists (seg_end lastSeg). repeat split; auto.
  - destruct (Z.eqb_spec idx (Z.of_nat (length (getMeasurementPoints (Polyline pm))) - 1))
      as [Hil|Hil].
    + eexists. split; [reflexivity|].
      unfold lastEndOf. cbn [set_segments start closed segments].
      rewrite list_set_length, nth_error_list_set_same by lia.
      cbn [option_map set_end seg_end].
      repeat split; auto. exists (start w). repeat split; auto.
    + exists w. unfold lastEndOf. rewrite Hlast. cbn [option_map].
      repeat split; auto. exists (seg_end lastSeg). repeat split; auto.
      intros [E|E]; contradiction.
Qed.

(** ** Removing a point with a double click *)

Lemma in_list_set {A : Type} (l : list A) :
  forall i v a, In a (list_set l i v) -> a = v \/ In a l.
Proof.
  induction l as [|h t IH]; intros [|i] v a H; simpl in *; auto.
  - destruct H as [<-|H]; auto.
  - destruct H as [<-|H]; auto. destruct (IH _ _ _ H); auto.
Qed.

Lemma in_skipn {A : Type} (a : A) :
  forall n (l : list A), In a (skipn n l) -> In a l.
Proof.
  induction n as [|n IH]; intros [|h t] H; simpl in *; auto.
Qed.

Lemma in_firstn {A : Type} (a : A) :
  forall n (l : list A), In a (firstn n l) -> In a l.
Proof.
  induction n as [|n IH]; intros [|h t] H; simpl in *; auto; try contradiction.
  destruct H; auto.
Qed.

Lemma in_splice1 {A : Type} (l : list A) (i : nat) (a : A) :
  In a (splice1 l i) -> In a l.
Proof.
  unfold splice1. intros H. apply in_app_or in H.
  destruct H as [H|H]; [now apply in_firstn in H|now apply in_skipn in H].
Qed.

(** X17: when a double click removes a point of a completed polyline,
    the collection loses at most that polyline: it is dropped when the
    removal left it without segments and kept, edited, otherwise.  So a
    collection in which every polyline has a segment stays so, and no
    rectangle or circle is added or changed.  The branch does not apply
    only when nothing is hit or when the measurement found under the hit
    id is not a polyline. *)
Theorem dblClickRemovePoint_collection (measurements : list Measurement) (pos : Point) :
  match dblClickRemovePoint measurements pos with
  | Some ms' =>
      (length ms' = length measurements \/ S (length ms') = length measurements)
      /\ ((forall pm, In (Polyline pm) measurements -> segments pm <> []) ->
          forall pm, In (Polyline pm) ms' -> segments pm <> [])
      /\ (forall m, In m ms' -> (exists pm, m = Polyline pm) \/ In m measurements)
  | None =>
      findHoveredPoint measurements pos = None
      \/ exists h m,
           findHoveredPoint measurements pos = Some h
           /\ In m measurements /\ measurementId m = hit_measurementId h
           /\ forall pm, m <> Polyline pm
  end.
Proof.
  unfold dblClickRemovePoint.
  assert (Hhit : forall h, findHoveredPoint measurements pos = Some h ->
            exists m, In m measurements /\ measurementId m = hit_measurementId h).
  { intros h Hh. unfold findHoveredPoint in Hh.
    pose proof (findHoveredFrom_spec (rev measurements) pos) as H.
    rewrite Hh in H. destruct H as (m & p & Hin & Hid & _).
    exists m. split; [now apply in_rev|exact Hid]. }
  destruct (findHoveredPoint measurements pos) as [h|]; [|now left].
  destruct (Hhit h eq_refl) as (mh & Hmh & Hidh).
  destruct (findIndexById measurements (hit_measurementId h)) as [mIdx|] eqn:Hidx.
  2:{ assert (Hnone : forall ms, findIndexById ms (hit_measurementId h) = None ->
                forall m, In m ms -> measurementId m <> hit_measurementId h).
      { induction ms as [|m0 rest IH]; intros Hf m []; cbn [findIndexById] in Hf.
        - subst m0. destruct (String.eqb_spec (measurementId m) (hit_measurementId h));
            [discriminate|assumption].
        - destruct (String.eqb (measurementId m0) (hit_measurementId h));
            [discriminate|].
          destruct (findIndexById rest (hit_measurementId h)); [discriminate|].
          now apply IH. }
      exfalso. now apply (Hnone measurements Hidx mh Hmh). }
  assert (Hfound : forall ms k, findIndexById ms (hit_measurementId h) = Some k ->
            exists m, nth_error ms k = Some m
                      /\ measurementId m = hit_measurementId h).
  { induction ms as [|m0 rest IH]; intros k Hf; cbn [findIndexById] in Hf;
      [discriminate|].
    destruct (String.eqb_spec (measurementId m0) (hit_measurementId h)) as [E|E].
    - injection Hf as <-. exists m0. now split.
    - destruct (findIndexById rest (hit_measurementId h)) as [k'|]; [|discriminate].
      injection Hf as <-. apply (IH k' eq_refl). }
  destruct (Hfound _ _ Hidx) as (m & Hm & Hid). rewrite Hm.
  assert (Hlt : (mIdx < length measurements)%nat)
    by (apply nth_error_Some; congruence).
  assert (Hmin : In m measurements) by (eapply nth_error_In; exact Hm).
  destruct m as [pm|rm|cm].
  - destruct (Nat.eqb_spec (length (segments (removePolylinePoint pm
                                 (Z.of_nat (pointIndex h))))) 0) as [Hz|Hnz].
    + split; [right; now apply splice1_length|]. split.
      * intros Hinv pm' Hin. apply Hinv. now apply in_splice1 in Hin.
      * intros m' Hin. right. now apply in_splice1 in Hin.
    + split; [left; apply list_set_length|]. split.
      * intros Hinv pm' Hin. apply in_list_set in Hin. destruct Hin as [E|Hin].
        -- injection E as ->. intros E. rewrite E in Hnz. now apply Hnz.
        -- now apply Hinv.
      * intros m' Hin. apply in_list_set in Hin. destruct Hin as [->|Hin];
          [left; eexists; reflexivity|now right].
  - right. exists h, (Rectangle rm). repeat split; auto. discriminate.
  - right. exists h, (Circle cm). repeat split; auto. discriminate.
Qed.

(** ** Closing gestures of the line tool *)

Lemma pointNear_same (p : Point) : pointNear p p CLOSE_SNAP_RADIUS = true.
Proof.
  apply pointNear_true. rewrite dist_same. unfold CLOSE_SNAP_RADIUS. lra.
Qed.

Lemma snapArcToClose_in_place (m : PolylineMeasurement) (lastSeg : PolylineSegment) :
  exists b,
    snapArcToClose (set_segments m (segments m ++ [lastSeg]))
    = set_segments m (segments m ++ [mkSegment (start m) b]).
Proof.
  unfold snapArcToClose. cbn [set_segments segments start poly_id closed].
  rewrite nth_error_snoc_last, list_set_snoc_last.
  cbv zeta.
  destruct (getPrevTangent _ _) as [tangentDir|].
  - destruct (computeTangentArcBulge _ _ _) as [b|].
    + exists (Some b). now rewrite list_set_snoc_last'.
    + exists None. now rewrite list_set_snoc_last'.
  - exists (bulge lastSeg). reflexivity.
Qed.

(** X18: [snapArcToClose] moves the end of the last segment exactly onto
    [start] and touches nothing but that segment; on a polyline of at
    least two segments, releasing the arc right after it (shift not
    held) always closes the polyline, whatever the segment mode. *)
Theorem snapArcToClose_then_release (m : PolylineMeasurement)
  (pre : list PolylineSegment) (prevSeg lastSeg : PolylineSegment)
  (wasNewSegment : bool) :
  segments m = pre ++ [prevSeg; lastSeg] ->
  exists b,
    snapArcToClose m
    = mkPolyline (poly_id m) (start m)
        (pre ++ [prevSeg; mkSegment (start m) b]) (closed m)
    /\ finalizeArc (snapArcToClose m) false wasNewSegment
       = (mkPolyline (poly_id m) (start m)
            (pre ++ [prevSeg; mkSegment (start m) b]) (Some true),
          mkArcReleaseResult true false).
Proof.
  intros Hsegs.
  destruct (snapArcToClose_in_place
              (set_segments m (pre ++ [prevSeg])) lastSeg) as [b Hb].
  assert (Em : set_segments (set_segments m (pre ++ [prevSeg]))
                 (segments (set_segments m (pre ++ [prevSeg])) ++ [lastSeg]) = m).
  { destruct m. cbn in *. subst. now rewrite <- app_assoc. }
  rewrite Em in Hb. exists b. rewrite Hb.
  unfold set_segments. cbn [poly_id start segments closed].
  rewrite <- app_assoc. cbn [app].
  split; [reflexivity|].
  unfold finalizeArc. cbn [segments start].
  assert (Hlen : (2 <= length (pre ++ [prevSeg; mkSegment (start m) b]))%nat)
    by (rewrite length_app; simpl; lia).
  destruct (Nat.leb_spec 2 (length (pre ++ [prevSeg; mkSegment (start m) b])))
    as [_|]; [|lia].
  rewrite nth_error_snoc2_last. cbn [seg_end negb andb].
  rewrite pointNear_same.
  unfold set_closed, set_segments, set_end. cbn [poly_id start segments closed bulge].
  now rewrite list_set_snoc2_last.
Qed.

Lemma snapArcToClose_then_release_witness :
  exists b,
    snapArcToClose openLoop
    = mkPolyline "p2"%string (mkPoint 0 0)
        ([mkSegment (mkPoint 100 0) None]
           ++ [mkSegment (mkPoint 100 100) None; mkSegment (mkPoint 0 0) b]) None
    /\ finalizeArc (snapArcToClose openLoop) false true
       = (mkPolyline "p2"%string (mkPoint 0 0)
            ([mkSegment (mkPoint 100 0) None]
               ++ [mkSegment (mkPoint 100 100) None; mkSegment (mkPoint 0 0) b])
            (Some true),
          mkArcReleaseResult true false).
Proof.
  apply (snapArcToClose_then_release openLoop [mkSegment (mkPoint 100 0) None]
           (mkSegment (mkPoint 100 100) None)
           (mkSegment (mkPoint 5 5) (Some (mkPoint 60 60))) true).
  reflexivity.
Defined.



(** ** Keys and hand-off of the line tool *)

Lemma key_Backspace : String.eqb "Backspace" "Escape" = false
  /\ String.eqb "Backspace" "Enter" = false
  /\ String.eqb "Backspace" "Delete" = false
  /\ String.eqb "Backspace" "Backspace" = true.
Proof. repeat split. Qed.

(** X20: Backspace right after a click that appended a segment (the
    normal segment or the closing one) takes that segment away again:
    the polyline is the one before the click, and the key is reported as
    handled.  The timer the click started stays pending. *)
Theorem backspace_undoes_click (t : LineTool) (m : PolylineMeasurement)
  (newId : string) (pos : Point) (ctx : ToolContext) :
  activeMeasurement t = Some m ->
  let t1 := onClick t newId pos ctx in
  activeMeasurement (fst (onKeyDown t1 "Backspace")) = Some m
  /\ snd (onKeyDown t1 "Backspace") = Some None
  /\ arcDragTimeout (fst (onKeyDown t1 "Backspace")) = arcDragTimeout t1
  /\ arcDragTimeout t1 <> None.
Proof.
  intros Hact. cbv zeta.
  destruct key_Backspace as (K1 & K2 & K3 & K4).
  assert (Hpop : forall seg,
    set_segments (set_segments m (segments m ++ [seg]))
      (pop (segments (set_segments m (segments m ++ [seg])))) = m).
  { intros seg. destruct m. unfold set_segments, pop.
    cbn [poly_id start segments closed]. now rewrite removelast_last. }
  assert (Hpos : forall seg,
    Nat.ltb 0 (length (segments (set_segments m (segments m ++ [seg])))) = true).
  { intros seg. apply Nat.ltb_lt. cbn [set_segments segments].
    rewrite length_app. simpl. lia. }
  unfold onClick. rewrite Hact.
  destruct (negb (shiftHeld ctx) && Nat.leb 2 (length (segments m))
            && pointNear pos (start m) CLOSE_SNAP_RADIUS);
    unfold onKeyDown; rewrite K1, K2, K3, K4; cbn [orb activeMeasurement];
    rewrite Hpos, Hpop; cbn [fst snd activeMeasurement arcDragTimeout];
    repeat split; discriminate.
Qed.

Lemma backspace_undoes_click_witness :
  activeMeasurement
    (fst (onKeyDown (onClick drawingTool "p3"%string (mkPoint 50 0) clickContext)
            "Backspace"))
  = Some startedPolyline.
Proof.
  apply (backspace_undoes_click drawingTool startedPolyline "p3"%string
           (mkPoint 50 0) clickContext).
  reflexivity.
Defined.

Lemma finalizeArc_closed (m : PolylineMeasurement) (shift wasNew : bool) :
  arc_closed (snd (finalizeArc m shift wasNew)) = true ->
  closed (fst (finalizeArc m shift wasNew)) = Some true
  /\ (2 <= length (segments (fst (finalizeArc m shift wasNew))))%nat
  /\ lastEndOf (fst (finalizeArc m shift wasNew))
     = Some (start (fst (finalizeArc m shift wasNew))).
Proof.
  unfold finalizeArc.
  assert (Hdeg : arc_closed (snd (removeDegenerateArc m wasNew)) = true -> False).
  { unfold removeDegenerateArc.
    destruct (wasNew && _); [|discriminate].
    destruct (nth_error _ _); [|discriminate].
    destruct (nth_error _ _); [|discriminate].
    destruct (Rltb _ _); discriminate. }
  destruct (Nat.leb_spec 2 (length (segments m))) as [H2|H2];
    [|intros H; now apply Hdeg in H].
  destruct (nth_error (segments m) (length (segments m) - 1)) as [lastSeg|] eqn:Hl;
    [|intros H; now apply Hdeg in H].
  destruct (negb shift && pointNear (seg_end lastSeg) (start m) CLOSE_SNAP_RADIUS);
    [|intros H; now apply Hdeg in H].
  intros _. cbn [fst]. unfold lastEndOf.
  cbn [set_closed set_segments closed segments start].
  rewrite list_set_length. split; [reflexivity|]. split; [exact H2|].
  rewrite nth_error_list_set_same by lia. reflexivity.
Qed.

(** X21: what the line tool hands off.  A double click, a key and the
    deactivation only hand off the active polyline, only when it has at
    least one segment, and leave the tool without an active polyline.  A
    mouse-up only hands off a polyline marked closed, and, when it is
    the release of a held arc that closes, a polyline of at least two
    segments whose last end is exactly its start. *)
Theorem lineTool_handoff (t : LineTool) :
  (forall m, snd (onDblClick t) = Some m ->
     activeMeasurement t = Some m /\ (1 <= length (segments m))%nat
     /\ activeMeasurement (fst (onDblClick t)) = None)
  /\ (forall key m, snd (onKeyDown t key) = Some (Some m) ->
     activeMeasurement t = Some m /\ (1 <= length (segments m))%nat
     /\ activeMeasurement (fst (onKeyDown t key)) = None)
  /\ (forall m, snd (onDeactivate t) = Some m ->
     activeMeasurement t = Some m /\ (1 <= length (segments m))%nat
     /\ activeMeasurement (fst (onDeactivate t)) = None)
  /\ (forall ctx m, snd (onMouseUp t ctx) = Some m ->
     closed m = Some true
     /\ activeMeasurement (fst (onMouseUp t ctx)) = None
     /\ (isClosingSegment t = false ->
         (2 <= length (segments m))%nat /\ lastEndOf m = Some (start m))).
Proof.
  split; [|split; [|split]].
  - intros m. unfold onDblClick.
    destruct (activeMeasurement t) as [m0|]; [|discriminate].
    destruct (Nat.leb_spec 1 (length (segments m0))); [|discriminate].
    cbn [fst snd activeMeasurement]. intros E. injection E as <-. auto.
  - intros key m. unfold onKeyDown.
    destruct (String.eqb key "Escape").
    { destruct (activeMeasurement t) as [m0|]; [|discriminate].
      destruct (Nat.leb_spec 1 (length (segments m0))); [|discriminate].
      cbn [fst snd activeMeasurement]. intros E. injection E as <-. auto. }
    destruct (String.eqb key "Enter").
    { destruct (activeMeasurement t) as [m0|]; [|discriminate].
      destruct (Nat.leb_spec 1 (length (segments m0))); [|discriminate].
      cbn [fst snd activeMeasurement]. intros E. injection E as <-. auto. }
    destruct (String.eqb key "Delete" || String.eqb key "Backspace"); [|discriminate].
    destruct (activeMeasurement t) as [m0|]; [|discriminate].
    destruct (Nat.ltb 0 (length (segments m0))); discriminate.
  - intros m. unfold onDeactivate, finalize.
    destruct (activeMeasurement t) as [m0|]; [|discriminate].
    destruct (Nat.leb_spec 1 (length (segments m0))); [|discriminate].
    cbn [fst snd activeMeasurement]. intros E. injection E as <-. auto.
  - intros ctx m. unfold onMouseUp.
    destruct (isClosingSegment t) eqn:Hc; destruct (activeMeasurement t) as [m0|].
    + cbn [fst snd activeMeasurement]. intros E. injection E as <-.
      split; [|split; [reflexivity|discriminate]].
      destruct (nth_error _ _) as [lastSeg|]; [destruct (bulge lastSeg)|]; reflexivity.
    + destruct (isHoldingForArc t); discriminate.
    + destruct (isHoldingForArc t); [|discriminate].
      pose proof (finalizeArc_closed m0 (shiftHeld ctx) (arcIsNewSegment t)) as Hf.
      destruct (finalizeArc m0 (shiftHeld ctx) (arcIsNewSegment t)) as [m1 res].
      cbn [fst snd] in Hf.
      destruct (arc_closed res); [|discriminate].
      cbn [fst snd activeMeasurement]. intros E. injection E as <-.
      destruct (Hf eq_refl) as (H1 & H2 & H3). auto.
    + destruct (isHoldingForArc t); discriminate.
Qed.

(** * The hold timer of the line tool *)

(** ** The tangent at the start of the last segment *)









(** ** The callback of a normal click *)









(** * The geometry kernel as the program computes it *)

Section Binary64Kernel.

Import Binary64.
#[local] Set Warnings "-inexact-float".
Local Open Scope float_scope.

(** ** The circumscribed circle *)



(** ** The tangent-constrained bulge *)



(** ** The tangent at the end of the previous segment *)




End Binary64Kernel.
